(** * Serialization helpers of the driver (packages/driver/src/util/serialization.ts)

    A shallow embedding of the three functions of [serialization.ts]:

    - [isSerializableInCurrentBrowser]  (the serializability oracle),
    - [convertObjectToSerializableLiteral]  (the prototype-chain flattener),
    - [omitUnserializablePropertiesFromObj] and
      [preprocessErrorsForSerialization]  (the two exported sanitizers),

    together with the properties that the specification states about them.

    Modelling conventions.

    - A JavaScript value is a term of [Value].  Objects are immutable trees:
      an object is its class tag, the ordered table of its own properties and
      its prototype ([None] is [null]).  A property is either a data slot or
      an accessor; a getter either returns a value or throws one.
    - The host's built-in [Object.prototype] is not part of a modelled chain:
      a chain ends where its last link has prototype [null], and the record
      built from [{}] is a single link without prototype.  The sample
      objects below are rooted at [Object.create(null)].
    - Numbers are the integers and the special doubles; the source never
      computes on a number, it only asks whether one is falsy.
    - A JavaScript computation that may throw is a [Completion]; the thrown
      thing is itself a [Value] (the source throws a string).
    - The flattener runs in a small writer monad [M] whose log records the
      getter calls made by its property reads and the values handed to the
      oracle.  The log is ghost state: results never depend on it.
    - The clone primitive, the native [window.structuredClone] and the
      browser identity are external; they are the fields of [Env]. *)

From stdpp Require Import base option list strings gmap fin_maps.
From Stdlib Require Import ZArith.

Open Scope string_scope.
Open Scope list_scope.

(** ** Values *)

Inductive Number :=
| NaN
| Infinity (negative : bool)
| NegZero
| Int (z : Z).

Inductive Class :=
| ClsObject
| ClsFunction
| ClsError.

#[warnings="-register-all"]
Inductive Value :=
| VUndefined
| VNull
| VBool (b : bool)
| VNumber (n : Number)
| VBigInt (z : Z)
| VString (s : string)
| VSymbol (description : string)
| VArray (elems : list Value)
| VObject (o : Obj)
with Obj :=
| MkObj (cls : Class) (own : list (string * Slot)) (proto : option Obj)
with Slot :=
| Data (v : Value)
| Accessor (getter : GetterBody)
with GetterBody :=
| Returns (v : Value)
| Throws (thrown : Value).

Definition cls (o : Obj) : Class := let '(MkObj c _ _) := o in c.
Definition own (o : Obj) : list (string * Slot) := let '(MkObj _ ps _) := o in ps.
Definition proto (o : Obj) : option Obj := let '(MkObj _ _ p) := o in p.

(** A call either returns or throws; JavaScript throws arbitrary values. *)
Inductive Completion (A : Type) :=
| Normal (a : A)
| Abrupt (thrown : Value).
Arguments Normal {A} a.
Arguments Abrupt {A} thrown.

(** [export const UNSERIALIZABLE = '__cypress_unserializable_value'] *)
Definition UNSERIALIZABLE : Value := VString "__cypress_unserializable_value".

(** ** What lodash and the language decide about a value *)

(** [_.isArray] *)
Definition isArray (v : Value) : bool :=
  match v with VArray _ => true | _ => false end.

(** [_.isObject]: objects and functions (arrays too, but the source asks
    [_.isArray] first). *)
Definition isObject (v : Value) : bool :=
  match v with VArray _ | VObject _ => true | _ => false end.

(** [_.isError], decided on the class tag. *)
Definition isError (v : Value) : bool :=
  match v with VObject (MkObj ClsError _ _) => true | _ => false end.

(** ToBoolean, as applied by [_.filter] to what its predicate returns. *)
Definition truthy (v : Value) : bool :=
  match v with
  | VUndefined | VNull => false
  | VBool b => b
  | VNumber NaN | VNumber NegZero => false
  | VNumber (Int z) => negb (z =? 0)%Z
  | VNumber (Infinity _) => true
  | VBigInt z => negb (z =? 0)%Z
  | VString s => negb (String.eqb s "")
  | VSymbol _ | VArray _ | VObject _ => true
  end.

(** ** The host environment *)

Record Env := {
  (** [Cypress.isBrowser('firefox')] *)
  isBrowserFirefox : bool;
  (** [window?.structuredClone]; [None] when the browser has none.  The
      clone itself is discarded by the source, only the completion counts. *)
  windowStructuredClone : option (Value -> Completion unit);
  (** [structuredClonePonyfill] of core-js *)
  structuredClonePonyfill : Value -> Completion unit
}.

(** [const structuredCloneRef = window?.structuredClone || structuredClonePonyfill] *)
Definition structuredCloneRef (env : Env) : Value -> Completion unit :=
  match windowStructuredClone env with
  | Some native => native
  | None => structuredClonePonyfill env
  end.

(** [structuredCloneRef !== window?.structuredClone]: the reference is the
    native function exactly when there is one. *)
Definition refIsNotNative (env : Env) : bool :=
  match windowStructuredClone env with
  | Some _ => false
  | None => true
  end.

(** ** The oracle *)

Definition isSerializableInCurrentBrowser (env : Env) (value : Value) : bool :=
  match structuredCloneRef env value with
  | Normal _ =>
      if isBrowserFirefox env && isError value && refIsNotNative env
      then false
      else true
  | Abrupt _ => false
  end.

(** ** The effect monad of the flattener *)

Inductive Event :=
| GetterCall (depth : nat) (prop : string)
| OracleCall (value : Value).

Definition M (A : Type) : Type := Completion A * list Event.

Definition ret {A} (a : A) : M A := (Normal a, []).
Definition throw {A} (e : Value) : M A := (Abrupt e, []).
Definition tell (ev : Event) : M unit := (Normal tt, [ev]).
Definition bind {A B} (m : M A) (k : A -> M B) : M B :=
  match m with
  | (Normal a, log) => let '(r, log') := k a in (r, log ++ log')
  | (Abrupt e, log) => (Abrupt e, log)
  end.

Notation "'let*' x ':=' m 'in' k" := (bind m (fun x => k))
  (at level 10, x name, m at level 100, k at level 200).
Notation "'do' m 'then' k" := (bind m (fun _ => k))
  (at level 10, m at level 100, k at level 200).

(** [forEach] over a list, threading an accumulator. *)
Fixpoint forEach {A B} (f : B -> A -> M B) (l : list A) (acc : B) : M B :=
  match l with
  | [] => ret acc
  | x :: rest => let* acc' := f acc x in forEach f rest acc'
  end.

(** ** Property access *)

Definition lookupOwn (prop : string) (ps : list (string * Slot)) : option Slot :=
  snd <$> List.find (fun kv => String.eqb (fst kv) prop) ps.

(** [Object.getOwnPropertyNames] *)
Definition getOwnPropertyNames (o : Obj) : list string := fst <$> own o.

Definition runGetter (depth : nat) (prop : string) (g : GetterBody) : M Value :=
  do tell (GetterCall depth prop) then
  match g with
  | Returns v => ret v
  | Throws e => throw e
  end.

(** [o[prop]] for a link [o] that sits [depth] links above the object that
    is being flattened: own slot first, then the prototype, [undefined] at
    the end of the chain. *)
Fixpoint getProp (depth : nat) (o : Obj) (prop : string) : M Value :=
  match o with
  | MkObj _ ps parent =>
      match lookupOwn prop ps with
      | Some (Data v) => ret v
      | Some (Accessor g) => runGetter depth prop g
      | None =>
          match parent with
          | Some p => getProp (S depth) p prop
          | None => ret VUndefined
          end
      end
  end.

(** ** The flattener *)

Definition oracle (env : Env) (v : Value) : M bool :=
  do tell (OracleCall v) then ret (isSerializableInCurrentBrowser env v).

(** The body of [props.forEach]:
    [if (!allProps.includes(prop) && isSerializableInCurrentBrowser(currentObjectRef[prop])) allProps.push(prop)] *)
Definition testProp (env : Env) (depth : nat) (currentObjectRef : Obj)
    (allProps : list string) (prop : string) : M (list string) :=
  if bool_decide (prop ∈ allProps) then ret allProps
  else
    let* v := getProp depth currentObjectRef prop in
    let* ok := oracle env v in
    ret (if ok then allProps ++ [prop] else allProps).

(** The [do ... while (currentObjectRef)] loop. *)
Fixpoint walkChain (env : Env) (depth : nat) (currentObjectRef : Obj)
    (allProps : list string) : M (list string) :=
  match currentObjectRef with
  | MkObj _ _ parent =>
      let* allProps' := forEach (testProp env depth currentObjectRef)
                          (getOwnPropertyNames currentObjectRef) allProps in
      match parent with
      | Some p => walkChain env (S depth) p allProps'
      | None => ret allProps'
      end
  end.

(** [allProps.forEach((key) => { objectAsLiteral[key] = obj[key] })] *)
Definition copyProp (obj : Obj) (objectAsLiteral : list (string * Slot))
    (key : string) : M (list (string * Slot)) :=
  let* v := getProp 0 obj key in
  ret (objectAsLiteral ++ [(key, Data v)]).

Definition convertObjectToSerializableLiteral (env : Env) (obj : Obj) : M Obj :=
  let* allProps := walkChain env 0 obj [] in
  let* objectAsLiteral := forEach (copyProp obj) allProps [] in
  ret (MkObj ClsObject objectAsLiteral None).

(** ** The exported sanitizers *)

(** [_.pickBy(objectToSanitize, isSerializableInCurrentBrowser)] on a flat
    string-keyed mapping. *)
Definition omitUnserializablePropertiesFromObj (env : Env)
    (objectToSanitize : gmap string Value) : gmap string Value :=
  filter (fun kv => isSerializableInCurrentBrowser env (snd kv) = true)
         objectToSanitize.

(** [_.filter(array, predicate)]: the element itself is kept when the
    predicate's result is truthy; a throwing predicate ends the call. *)
Definition lodashFilter (predicate : Value -> Completion Value)
  : list Value -> Completion (list Value) :=
  fix go (l : list Value) : Completion (list Value) :=
    match l with
    | [] => Normal []
    | x :: rest =>
        match predicate x with
        | Abrupt e => Abrupt e
        | Normal r =>
            match go rest with
            | Abrupt e => Abrupt e
            | Normal kept => Normal (if truthy r then x :: kept else kept)
            end
        end
    end.

Fixpoint preprocessErrorsForSerialization (env : Env) (valueToSanitize : Value)
  : Completion Value :=
  match valueToSanitize with
  | VArray elems =>
      match lodashFilter (preprocessErrorsForSerialization env) elems with
      | Normal kept => Normal (VArray kept)
      | Abrupt e => Abrupt e
      end
  | VObject o =>
      match fst (convertObjectToSerializableLiteral env o) with
      | Normal sanitizedValue => Normal (VObject sanitizedValue)
      | Abrupt _ => Abrupt UNSERIALIZABLE
      end
  | _ =>
      if isSerializableInCurrentBrowser env valueToSanitize
      then Normal valueToSanitize
      else Abrupt UNSERIALIZABLE
  end.

(** ** Auxiliary notions used by the statements *)

(** The values that reach the last branch of
    [preprocessErrorsForSerialization]: neither [_.isArray] nor [_.isObject]. *)
Definition isScalar (v : Value) : bool := negb (isArray v || isObject v).

(** What [_.filter] decides for one element. *)
Definition keeps (predicate : Value -> Completion Value) (x : Value) : bool :=
  match predicate x with
  | Normal r => truthy r
  | Abrupt _ => false
  end.

Definition isGetterCallOf (d : nat) (key : string) (ev : Event) : bool :=
  match ev with
  | GetterCall d' prop => Nat.eqb d d' && String.eqb key prop
  | OracleCall _ => false
  end.

(** How often the getter of [key] on the link at depth [d] was run. *)
Definition getterCalls (d : nat) (key : string) (log : list Event) : nat :=
  length (List.filter (isGetterCallOf d key) log).

(** Where ordinary lookup of [prop], started at a link of depth [depth],
    finds the property: the depth of the owning link and its slot. *)
Fixpoint resolve (depth : nat) (o : Obj) (prop : string) : option (nat * Slot) :=
  match o with
  | MkObj _ ps parent =>
      match lookupOwn prop ps with
      | Some slot => Some (depth, slot)
      | None =>
          match parent with
          | Some p => resolve (S depth) p prop
          | None => None
          end
      end
  end.

(** Every link lists each own property name once. *)
Fixpoint wfChain (o : Obj) : Prop :=
  match o with
  | MkObj _ ps parent =>
      NoDup (fst <$> ps)
      /\ match parent with Some p => wfChain p | None => True end
  end.

(** The log of one property read. *)
Definition readLog (depth : nat) (o : Obj) (prop : string) : list Event :=
  match resolve depth o prop with
  | Some (d, Accessor _) => [GetterCall d prop]
  | _ => []
  end.

(** A flat record: data slots only, each name once, every value accepted
    by the oracle. *)
Definition acceptedEntry (env : Env) (kv : string * Slot) : Prop :=
  exists v, snd kv = Data v /\ isSerializableInCurrentBrowser env v = true.

(** The links of a prototype chain with their depths, nearest first. *)
Fixpoint chainLinks (depth : nat) (o : Obj) : list (nat * Obj) :=
  match o with
  | MkObj _ _ parent =>
      (depth, o) :: match parent with
                    | Some p => chainLinks (S depth) p
                    | None => []
                    end
  end.

(** The own property names of all links, nearest link first. *)
Fixpoint chainNames (o : Obj) : list string :=
  match o with
  | MkObj _ ps parent =>
      (fst <$> ps) ++ match parent with
                      | Some p => chainNames p
                      | None => []
                      end
  end.

(** The link [dl] owns [key], and reading [key] from that link gives a
    value that the oracle accepts. *)
Definition ownsAccepted (env : Env) (key : string) (dl : nat * Obj) : Prop :=
  key ∈ getOwnPropertyNames (snd dl)
  /\ exists v, fst (getProp (fst dl) (snd dl) key) = Normal v
               /\ isSerializableInCurrentBrowser env v = true.

(** No getter on the chain throws. *)
Fixpoint gettersReturn (o : Obj) : Prop :=
  match o with
  | MkObj _ ps parent =>
      Forall (fun kv => forall e, snd kv <> Accessor (Throws e)) ps
      /\ match parent with Some p => gettersReturn p | None => True end
  end.

(** The data slots of a property table as a flat mapping, the shape
    [omitUnserializablePropertiesFromObj] works on. *)
Fixpoint recordMap (ps : list (string * Slot)) : gmap string Value :=
  match ps with
  | [] => ∅
  | (k, Data v) :: rest => <[k := v]> (recordMap rest)
  | (_, Accessor _) :: rest => recordMap rest
  end.

(** ** Sample environments and values

    The theorems below hold for every [Env].  For evaluation on concrete
    inputs the clone primitive is instantiated with [sampleClone], which
    follows the structured-clone rules that matter here: symbols and
    functions throw, containers are cloned member by member, and a throwing
    getter makes the whole clone throw. *)

Fixpoint cloneable (v : Value) : bool :=
  match v with
  | VSymbol _ => false
  | VArray elems => forallb cloneable elems
  | VObject o => cloneableObj o
  | _ => true
  end
with cloneableObj (o : Obj) : bool :=
  match o with
  | MkObj ClsFunction _ _ => false
  | MkObj _ ps _ => forallb (fun kv => cloneableSlot (snd kv)) ps
  end
with cloneableSlot (s : Slot) : bool :=
  match s with
  | Data v => cloneable v
  | Accessor (Returns v) => cloneable v
  | Accessor (Throws _) => false
  end.

Definition DataCloneError : Value :=
  VObject (MkObj ClsError [("name", Data (VString "DataCloneError"))] None).

Definition sampleClone (v : Value) : Completion unit :=
  if cloneable v then Normal tt else Abrupt DataCloneError.

(** A browser with a native [structuredClone] that is not Firefox. *)
Definition chromium : Env :=
  {| isBrowserFirefox := false;
     windowStructuredClone := Some sampleClone;
     structuredClonePonyfill := sampleClone |}.

(** Firefox before version 94: no native primitive, the ponyfill is used. *)
Definition firefoxPonyfill : Env :=
  {| isBrowserFirefox := true;
     windowStructuredClone := None;
     structuredClonePonyfill := sampleClone |}.

(** Firefox with its native primitive. *)
Definition firefoxNative : Env :=
  {| isBrowserFirefox := true;
     windowStructuredClone := Some sampleClone;
     structuredClonePonyfill := sampleClone |}.

Definition num (z : Z) : Value := VNumber (Int z).

(** [new Error('boom')], own [message] only. *)
Definition sampleError : Value :=
  VObject (MkObj ClsError [("message", Data (VString "boom"))] None).

(** [Object.create(base)] with own [x], where [base] is
    [Object.create(null)] with own [y]. *)
Definition baseXY : Obj := MkObj ClsObject [("y", Data (num 2))] None.
Definition objXY : Obj := MkObj ClsObject [("x", Data (num 1))] (Some baseXY).

(** An instance whose own [p] is a symbol, shadowing a prototype whose own
    [p] is the number 1. *)
Definition baseP : Obj := MkObj ClsObject [("p", Data (num 1))] None.
Definition shadowP : Obj := MkObj ClsObject [("p", Data (VSymbol "s"))] (Some baseP).

(** An object with a single getter-backed property that returns 7. *)
Definition getterObj : Obj := MkObj ClsObject [("g", Accessor (Returns (num 7)))] None.

(** A function object (own [length] and [name]). *)
Definition sampleFunction : Value :=
  VObject (MkObj ClsFunction
             [("length", Data (num 0)); ("name", Data (VString "f"))] None).

(** The record that flattening [objXY] produces. *)
Definition flatXY : Obj :=
  MkObj ClsObject [("x", Data (num 1)); ("y", Data (num 2))] None.

(** What flattening [shadowP] returns, and what flattening that returns. *)
Definition recordP : Obj := MkObj ClsObject [("p", Data (VSymbol "s"))] None.
Definition emptyRecord : Obj := MkObj ClsObject [] None.

(** * Properties *)

Example flatten_objXY :
  fst (convertObjectToSerializableLiteral chromium objXY) = Normal flatXY.
Proof. reflexivity. Qed.

Example sanitize_error_chromium :
  preprocessErrorsForSerialization chromium sampleError
  = Normal (VObject (MkObj ClsObject [("message", Data (VString "boom"))] None)).
Proof. reflexivity. Qed.

(** [_.filter] drops every falsy element and keeps the others as they are. *)
Example sanitize_falsy_sample :
  preprocessErrorsForSerialization chromium
    (VArray [num 0; VString ""; VBool false; VNull; VUndefined; VNumber NaN;
             num 3; VString "a"; VArray []])
  = Normal (VArray [num 3; VString "a"; VArray []]).
Proof. reflexivity. Qed.

(** ** The oracle *)

Section Oracle.
Context (env : Env).

Lemma structuredCloneRef_native (native : Value -> Completion unit) :
  windowStructuredClone env = Some native -> structuredCloneRef env = native.
Proof. unfold structuredCloneRef. now intros ->. Qed.

Lemma refIsNotNative_native (native : Value -> Completion unit) :
  windowStructuredClone env = Some native -> refIsNotNative env = false.
Proof. unfold refIsNotNative. now intros ->. Qed.
End Oracle.

(** C6.  For an error-like value in Firefox with the ponyfill as the active
    primitive (no native [structuredClone]) the oracle answers [false]
    whatever the ponyfill says; with a native primitive the override never
    applies and the oracle's answer is exactly whether the native call
    returns; and when the active primitive throws the oracle answers
    [false], so nothing propagates (the oracle is a total boolean function). *)
Theorem oracle_quirk_and_absorption (env : Env) (value : Value) :
  (isError value = true -> isBrowserFirefox env = true ->
   windowStructuredClone env = None ->
   isSerializableInCurrentBrowser env value = false)
  /\ (forall native, windowStructuredClone env = Some native ->
      (isSerializableInCurrentBrowser env value = true
       <-> exists u, native value = Normal u))
  /\ (forall e, structuredCloneRef env value = Abrupt e ->
      isSerializableInCurrentBrowser env value = false).
Proof.
  split; [|split].
  - intros Herr Hff Hnone. unfold isSerializableInCurrentBrowser, refIsNotNative.
    rewrite Herr, Hff, Hnone. simpl. now destruct (structuredCloneRef env value).
  - intros native Hnat. unfold isSerializableInCurrentBrowser.
    rewrite (structuredCloneRef_native env native Hnat).
    rewrite (refIsNotNative_native env native Hnat), andb_false_r.
    destruct (native value) as [u|e]; split; intros H; eauto.
    + discriminate.
    + destruct H as [u H]. discriminate.
  - intros e He. unfold isSerializableInCurrentBrowser. now rewrite He.
Qed.

Lemma oracle_quirk_and_absorption_witness :
  structuredClonePonyfill firefoxPonyfill sampleError = Normal tt
  /\ isSerializableInCurrentBrowser firefoxPonyfill sampleError = false
  /\ isSerializableInCurrentBrowser firefoxNative sampleError = true
  /\ isSerializableInCurrentBrowser chromium (VSymbol "s") = false.
Proof.
  split; [reflexivity|]. split; [|split].
  - apply (proj1 (oracle_quirk_and_absorption firefoxPonyfill sampleError));
      reflexivity.
  - apply (proj1 (proj2 (oracle_quirk_and_absorption firefoxNative sampleError))
             sampleClone eq_refl).
    exists tt. reflexivity.
  - apply (proj2 (proj2 (oracle_quirk_and_absorption chromium (VSymbol "s")))
             DataCloneError).
    reflexivity.
Defined.

(** ** The shallow sanitizer *)

(** C8.  The result of [omitUnserializablePropertiesFromObj] maps a key to a
    value exactly when the input maps the key to that same value and the
    oracle accepts the value: the kept keys are the accepted ones, values
    are the original ones, and a key whose value the oracle rejects is
    dropped as a whole. *)
Theorem omit_keeps_exactly_accepted (env : Env) (m : gmap string Value)
    (key : string) (v : Value) :
  omitUnserializablePropertiesFromObj env m !! key = Some v
  <-> m !! key = Some v /\ isSerializableInCurrentBrowser env v = true.
Proof.
  unfold omitUnserializablePropertiesFromObj.
  rewrite map_lookup_filter_Some. reflexivity.
Qed.

Lemma omit_drops_rejected (env : Env) (m : gmap string Value)
    (key : string) (v : Value) :
  m !! key = Some v -> isSerializableInCurrentBrowser env v = false ->
  omitUnserializablePropertiesFromObj env m !! key = None.
Proof.
  intros Hm Hrej. unfold omitUnserializablePropertiesFromObj.
  apply map_lookup_filter_None. right. intros v' Hv'. simpl.
  rewrite Hm in Hv'. injection Hv' as <-. rewrite Hrej. discriminate.
Qed.

(** [{a: 1, b: Symbol()}] keeps [a] only; a nested object with a symbol
    inside is dropped whole. *)
Example omit_sample :
  omitUnserializablePropertiesFromObj chromium
    (<["a" := num 1]> (<["b" := VSymbol "s"]> ∅))
  = <["a" := num 1]> ∅.
Proof.
  apply map_eq. intros k. apply option_eq. intros v.
  rewrite omit_keeps_exactly_accepted.
  destruct (decide (k = "a")) as [->|Ha].
  - rewrite !lookup_insert_eq. split; [tauto|]. intros [= <-]. split; reflexivity.
  - rewrite !(lookup_insert_ne _ "a") by congruence.
    rewrite lookup_empty.
    destruct (decide (k = "b")) as [->|Hb].
    + rewrite lookup_insert_eq. split; [|discriminate].
      intros [[= <-] Hacc]. discriminate.
    + rewrite lookup_insert_ne by congruence. rewrite lookup_empty.
      split; [intros [? _]|]; discriminate.
Qed.

Example omit_nested_sample :
  omitUnserializablePropertiesFromObj chromium
    (<["n" := VObject (MkObj ClsObject
                         [("ok", Data (num 1)); ("bad", Data (VSymbol "s"))] None)]> ∅)
  !! "n" = None.
Proof.
  eapply omit_drops_rejected; [apply lookup_insert_eq | reflexivity].
Qed.

(** ** The sanitizer on scalars and sequences *)

Section Pipeline.
Context (env : Env).

Local Abbreviation sanitize := (preprocessErrorsForSerialization env).

Lemma sanitize_scalar (v : Value) :
  isScalar v = true ->
  sanitize v = if isSerializableInCurrentBrowser env v
               then Normal v else Abrupt UNSERIALIZABLE.
Proof. destruct v; simpl; intros H; try reflexivity; discriminate. Qed.

Lemma lodashFilter_returns (predicate : Value -> Completion Value)
    (l kept : list Value) :
  lodashFilter predicate l = Normal kept ->
  kept = filter (fun x => keeps predicate x = true) l
  /\ Forall (fun x => exists r, predicate x = Normal r) l.
Proof.
  revert kept. induction l as [|x rest IH]; simpl; intros kept.
  - intros [= <-]. split; [reflexivity | constructor].
  - destruct (predicate x) as [r|e] eqn:Hx; [|discriminate].
    destruct (lodashFilter predicate rest) as [kept'|e]; [|discriminate].
    destruct (IH kept' eq_refl) as [-> Hall]. intros [= <-]. split.
    + assert (Hk : keeps predicate x = truthy r) by (unfold keeps; now rewrite Hx).
      rewrite filter_cons, Hk.
      destruct (truthy r); [rewrite decide_True | rewrite decide_False];
        congruence.
    + constructor; [eauto | assumption].
Qed.

(** The sanitized form of a value is truthy exactly when the value is:
    scalars are returned unchanged, arrays and objects yield arrays and
    objects. *)
Lemma sanitize_truthy (x r : Value) :
  sanitize x = Normal r -> truthy r = truthy x.
Proof.
  destruct x as [| | | | | | |elems|o]; simpl;
    try (destruct (isSerializableInCurrentBrowser env _);
         [intros [= <-]; reflexivity | discriminate]).
  - destruct (lodashFilter _ elems); [intros [= <-]; reflexivity | discriminate].
  - destruct (convertObjectToSerializableLiteral env o) as [[lit|e] log]; simpl;
      [intros [= <-]; reflexivity | discriminate].
Qed.
End Pipeline.

(** C5 (as amended).  For every value that is neither an array nor an
    object for [_.isObject] (so: primitives and symbols, but not functions,
    which lodash counts as objects), the sanitizer returns the value
    unchanged when the oracle accepts it and throws the sentinel when the
    oracle rejects it. *)
Theorem scalar_unchanged_or_unserializable (env : Env) (v : Value) :
  isScalar v = true ->
  (isSerializableInCurrentBrowser env v = true ->
   preprocessErrorsForSerialization env v = Normal v)
  /\ (isSerializableInCurrentBrowser env v = false ->
      preprocessErrorsForSerialization env v = Abrupt UNSERIALIZABLE)
  /\ (preprocessErrorsForSerialization env v = Abrupt UNSERIALIZABLE
      <-> isSerializableInCurrentBrowser env v = false).
Proof.
  intros Hs. rewrite (sanitize_scalar env v Hs).
  destruct (isSerializableInCurrentBrowser env v); repeat split;
    intros; congruence.
Qed.

Lemma scalar_unchanged_or_unserializable_witness :
  preprocessErrorsForSerialization chromium (num 5) = Normal (num 5)
  /\ preprocessErrorsForSerialization chromium (VSymbol "s") = Abrupt UNSERIALIZABLE.
Proof.
  split.
  - apply (proj1 (scalar_unchanged_or_unserializable chromium (num 5) eq_refl)).
    reflexivity.
  - apply (proj1 (proj2 (scalar_unchanged_or_unserializable chromium (VSymbol "s")
                           eq_refl))).
    reflexivity.
Defined.

(** C5, the claim as stated fails on functions: the specification lists
    functions among the scalars, the oracle rejects [sampleFunction], and yet
    the sanitizer does not throw: [_.isObject] sends a function to the
    flattener, which returns a record of its properties. *)
Lemma function_is_flattened_not_rejected :
  cls (MkObj ClsFunction
         [("length", Data (num 0)); ("name", Data (VString "f"))] None)
  = ClsFunction
  /\ isArray sampleFunction = false
  /\ isSerializableInCurrentBrowser chromium sampleFunction = false
  /\ preprocessErrorsForSerialization chromium sampleFunction
     = Normal (VObject (MkObj ClsObject
                          [("length", Data (num 0)); ("name", Data (VString "f"))]
                          None))
  /\ preprocessErrorsForSerialization chromium sampleFunction
     <> Abrupt UNSERIALIZABLE.
Proof. repeat split. discriminate. Qed.

(** C1 (as amended).  For serializable scalars [a], [c] and an
    unserializable scalar [b], sanitizing [[a, b, c]] throws the sentinel:
    the exception of the recursive call on [b] leaves [_.filter] and ends the
    whole call; nothing is dropped silently. *)
Theorem unserializable_element_aborts (env : Env) (a b c : Value) :
  isScalar a = true -> isScalar b = true -> isScalar c = true ->
  isSerializableInCurrentBrowser env a = true ->
  isSerializableInCurrentBrowser env b = false ->
  isSerializableInCurrentBrowser env c = true ->
  preprocessErrorsForSerialization env (VArray [a; b; c]) = Abrupt UNSERIALIZABLE.
Proof.
  intros Ha Hb Hc Hoa Hob Hoc. simpl.
  rewrite (sanitize_scalar env a Ha), (sanitize_scalar env b Hb), Hoa, Hob.
  reflexivity.
Qed.

Lemma unserializable_element_aborts_witness :
  preprocessErrorsForSerialization chromium (VArray [num 1; VSymbol "s"; num 2])
  = Abrupt UNSERIALIZABLE.
Proof.
  apply (unserializable_element_aborts chromium (num 1) (VSymbol "s") (num 2));
    reflexivity.
Defined.

(** C1, the claim as stated fails: with [a = 1], [b = Symbol()], [c = 2]
    the call throws instead of returning [[1, 2]]. *)
Lemma unserializable_element_not_dropped :
  isScalar (num 1) = true /\ isScalar (VSymbol "s") = true
  /\ isScalar (num 2) = true
  /\ isSerializableInCurrentBrowser chromium (num 1) = true
  /\ isSerializableInCurrentBrowser chromium (VSymbol "s") = false
  /\ isSerializableInCurrentBrowser chromium (num 2) = true
  /\ preprocessErrorsForSerialization chromium (VArray [num 1; VSymbol "s"; num 2])
     <> Normal (VArray [num 1; num 2]).
Proof. repeat split. discriminate. Qed.

(** C10.  When sanitizing a sequence returns, the output is the input
    filtered by the truthiness of each element's sanitized value; so an
    element whose sanitized value is falsy is absent from the output, also
    when the oracle accepts it. *)
Theorem falsy_elements_are_excluded (env : Env) (elems : list Value)
    (out x r : Value) :
  preprocessErrorsForSerialization env (VArray elems) = Normal out ->
  x ∈ elems ->
  preprocessErrorsForSerialization env x = Normal r ->
  truthy r = false ->
  exists kept,
    out = VArray kept
    /\ kept = filter (fun y => keeps (preprocessErrorsForSerialization env) y = true)
                     elems
    /\ x ∉ kept.
Proof.
  simpl. intros Hout Hx Hr Hfalsy.
  destruct (lodashFilter _ elems) as [kept|e] eqn:Hf; [|discriminate].
  injection Hout as <-. exists kept.
  destruct (lodashFilter_returns _ _ _ Hf) as [Hkept _].
  split; [reflexivity|]. split; [assumption|].
  rewrite Hkept, list_elem_of_filter. intros [Hkeep _].
  unfold keeps in Hkeep. rewrite Hr in Hkeep. congruence.
Qed.

Lemma falsy_elements_are_excluded_witness :
  isSerializableInCurrentBrowser chromium (num 0) = true
  /\ exists kept,
      Normal (VArray [num 1; num 2]) = Normal (VArray kept)
      /\ kept = filter (fun y => keeps (preprocessErrorsForSerialization chromium) y
                                = true) [num 1; num 0; num 2]
      /\ num 0 ∉ kept.
Proof.
  split; [reflexivity|].
  destruct (falsy_elements_are_excluded chromium [num 1; num 0; num 2]
              (VArray [num 1; num 2]) (num 0) (num 0))
    as (kept & Hout & Hkept & Hnot).
  - reflexivity.
  - right. left.
  - reflexivity.
  - reflexivity.
  - exists kept. split; [now rewrite Hout | split; assumption].
Defined.

(** ** The flattener: evaluation on the failing inputs *)

(** C2.  On [[objXY]] the sanitizer returns the original object inside the
    output sequence, although the sanitized form of [objXY] is the flat
    record [flatXY]: [_.filter] keeps the elements, not the predicate's
    results. *)
Theorem array_keeps_original_object :
  preprocessErrorsForSerialization chromium (VArray [VObject objXY])
  = Normal (VArray [VObject objXY])
  /\ preprocessErrorsForSerialization chromium (VObject objXY)
     = Normal (VObject flatXY)
  /\ VObject objXY <> VObject flatXY.
Proof. repeat split. discriminate. Qed.

(** C3.  Flattening [shadowP] yields the record [{p: Symbol()}]: the name
    [p] is accepted on the prototype, whose own [p] is 1, and the value then
    copied is the instance's symbol, which the oracle rejects. *)
Theorem flattened_record_holds_rejected_value :
  fst (convertObjectToSerializableLiteral chromium shadowP) = Normal recordP
  /\ lookupOwn "p" (own recordP) = Some (Data (VSymbol "s"))
  /\ isSerializableInCurrentBrowser chromium (VSymbol "s") = false.
Proof. repeat split. Qed.

(** C4.  While flattening [shadowP] the oracle is called twice for [p]:
    first on the instance's symbol (rejected), then again on the
    prototype's own value 1, which is not what [p] resolves to on the
    original object; that second call accepts the name. *)
Theorem oracle_tests_link_value :
  fst (getProp 0 shadowP "p") = Normal (VSymbol "s")
  /\ fst (getProp 1 baseP "p") = Normal (num 1)
  /\ walkChain chromium 0 shadowP []
     = (Normal ["p"], [OracleCall (VSymbol "s"); OracleCall (num 1)]).
Proof. repeat split. Qed.

(** C9.  Sanitizing [shadowP] succeeds with [{p: Symbol()}]; sanitizing
    that record again yields the empty record. *)
Theorem flatten_twice_differs :
  preprocessErrorsForSerialization chromium (VObject shadowP)
  = Normal (VObject recordP)
  /\ preprocessErrorsForSerialization chromium (VObject recordP)
     = Normal (VObject emptyRecord)
  /\ VObject recordP <> VObject emptyRecord.
Proof. repeat split. discriminate. Qed.

(** ** Getter calls during flattening *)

Lemma Obj_chain_ind (P : Obj -> Prop) :
  (forall c ps, P (MkObj c ps None)) ->
  (forall c ps p, P p -> P (MkObj c ps (Some p))) ->
  forall o, P o.
Proof.
  intros Hroot Hlink. fix IH 1. intros [c ps [p|]].
  - apply Hlink, IH.
  - apply Hroot.
Qed.

Lemma getterCalls_app (d : nat) (key : string) (l1 l2 : list Event) :
  getterCalls d key (l1 ++ l2) = getterCalls d key l1 + getterCalls d key l2.
Proof. unfold getterCalls. now rewrite List.filter_app, length_app. Qed.

Lemma getterCalls_nil (d : nat) (key : string) : getterCalls d key [] = 0.
Proof. reflexivity. Qed.

Lemma bind_fst_inv {A B} (m : M A) (k : A -> M B) (b : B) :
  fst (bind m k) = Normal b ->
  exists a, fst m = Normal a /\ fst (k a) = Normal b
            /\ snd (bind m k) = snd m ++ snd (k a).
Proof.
  unfold bind. destruct m as [[a|e] l1]; [|discriminate].
  destruct (k a) as [r l2] eqn:Hk. simpl. intros ->. exists a.
  rewrite Hk. auto.
Qed.

Lemma bind_log {A B} (m : M A) (k : A -> M B) :
  snd (bind m k)
  = match fst m with
    | Normal a => snd m ++ snd (k a)
    | Abrupt _ => snd m
    end.
Proof.
  unfold bind. destruct m as [[a|e] l1]; simpl; [|reflexivity].
  now destruct (k a).
Qed.

Lemma lookupOwn_Some_name (prop : string) (ps : list (string * Slot)) (s : Slot) :
  lookupOwn prop ps = Some s -> prop ∈ (fst <$> ps).
Proof.
  unfold lookupOwn. destruct (List.find _ ps) as [[k s']|] eqn:Hf; [|discriminate].
  intros _. apply List.find_some in Hf as [Hin Heq]. simpl in Heq.
  apply String.eqb_eq in Heq as ->.
  apply list_elem_of_fmap. exists (prop, s'). split; [reflexivity|].
  now apply list_elem_of_In.
Qed.

Lemma lookupOwn_None_name (prop : string) (ps : list (string * Slot)) :
  lookupOwn prop ps = None -> prop ∉ (fst <$> ps).
Proof.
  unfold lookupOwn. destruct (List.find _ ps) as [kv|] eqn:Hf; [discriminate|].
  intros _ Hin. apply list_elem_of_fmap in Hin as ([k s] & -> & Hin).
  apply list_elem_of_In in Hin.
  pose proof (List.find_none _ _ Hf _ Hin) as Hne. simpl in Hne.
  now rewrite String.eqb_refl in Hne.
Qed.

Lemma resolve_depth (depth : nat) (o : Obj) (prop : string) (d : nat) (s : Slot) :
  resolve depth o prop = Some (d, s) -> depth <= d.
Proof.
  revert depth. induction o as [c ps|c ps p IH] using Obj_chain_ind;
    intros depth; simpl; destruct (lookupOwn prop ps).
  - intros [= <- _]. lia.
  - discriminate.
  - intros [= <- _]. lia.
  - intros H. apply IH in H. lia.
Qed.

Lemma runGetter_log (d : nat) (prop : string) (g : GetterBody) :
  snd (runGetter d prop g) = [GetterCall d prop].
Proof. now destruct g. Qed.

Lemma getProp_log (depth : nat) (o : Obj) (prop : string) :
  snd (getProp depth o prop) = readLog depth o prop.
Proof.
  revert depth. unfold readLog.
  induction o as [c ps|c ps p IH] using Obj_chain_ind; intros depth; simpl;
    destruct (lookupOwn prop ps) as [[v|g]|]; simpl;
    auto using runGetter_log.
Qed.

Lemma readLog_other (depth : nat) (o : Obj) (prop : string) (d : nat) (key : string) :
  prop <> key \/ d < depth -> getterCalls d key (readLog depth o prop) = 0.
Proof.
  intros H. unfold readLog.
  destruct (resolve depth o prop) as [[d' [v|g]]|] eqn:Hr; try reflexivity.
  unfold getterCalls. simpl.
  destruct (Nat.eqb_spec d d') as [<-|]; [|reflexivity].
  destruct (String.eqb_spec key prop) as [<-|]; [|reflexivity].
  apply resolve_depth in Hr. destruct H; [congruence | lia].
Qed.

Lemma readLog_accessor (depth : nat) (o : Obj) (key : string) (d : nat)
    (g : GetterBody) :
  resolve depth o key = Some (d, Accessor g) ->
  getterCalls d key (readLog depth o key) = 1.
Proof.
  intros Hr. unfold readLog, getterCalls. rewrite Hr. simpl.
  now rewrite Nat.eqb_refl, String.eqb_refl.
Qed.

Section ForEachCalls.
Context {B : Type} (f : B -> string -> M B) (d : nat) (key : string).

Lemma forEach_calls_zero (names : list string) (acc : B) :
  (forall acc0 n, n ∈ names -> getterCalls d key (snd (f acc0 n)) = 0) ->
  getterCalls d key (snd (forEach f names acc)) = 0.
Proof.
  revert acc. induction names as [|x rest IH]; intros acc Hzero; [reflexivity|].
  simpl. rewrite bind_log.
  assert (Hx : getterCalls d key (snd (f acc x)) = 0) by (apply Hzero; left).
  destruct (fst (f acc x)) as [acc1|e]; [|assumption].
  rewrite getterCalls_app, Hx, IH; [reflexivity|].
  intros acc0 n Hn. apply Hzero. now right.
Qed.

Context (P : B -> Prop).
Hypothesis Hother :
  forall acc n, n <> key -> getterCalls d key (snd (f acc n)) = 0.
Hypothesis Hkey :
  forall acc, P acc -> getterCalls d key (snd (f acc key)) = 1.
Hypothesis Hinv :
  forall acc n acc', P acc -> n <> key -> fst (f acc n) = Normal acc' -> P acc'.

Lemma forEach_calls_one (names : list string) (acc acc' : B) :
  NoDup names -> key ∈ names -> P acc ->
  fst (forEach f names acc) = Normal acc' ->
  getterCalls d key (snd (forEach f names acc)) = 1.
Proof.
  revert acc. induction names as [|x rest IH]; intros acc Hnd Hin HP.
  - now apply elem_of_nil in Hin.
  - apply NoDup_cons in Hnd as [Hfresh Hnd]. simpl.
    rewrite bind_log. unfold bind.
    destruct (f acc x) as [[acc1|e] l1] eqn:Hfx; simpl; [|discriminate].
    intros Hrest. rewrite getterCalls_app.
    destruct (decide (x = key)) as [->|Hne].
    + pose proof (Hkey acc HP) as H1. rewrite Hfx in H1. simpl in H1.
      rewrite H1, forEach_calls_zero; [reflexivity|].
      intros acc0 n Hn. apply Hother. congruence.
    + pose proof (Hother acc x Hne) as H0. rewrite Hfx in H0. simpl in H0.
      rewrite H0. simpl. apply IH.
      * assumption.
      * apply elem_of_cons in Hin as [Heq|Hin]; [congruence | assumption].
      * apply (Hinv acc x acc1 HP Hne). now rewrite Hfx.
      * destruct (forEach f rest acc1). assumption.
Qed.
End ForEachCalls.

Section TestPhase.
Context (env : Env).

Lemma oracle_log_calls (d : nat) (key : string) (v : Value) {A}
    (k : bool -> A) :
  getterCalls d key (snd (bind (oracle env v) (fun ok => ret (k ok)))) = 0.
Proof. reflexivity. Qed.

Lemma testProp_calls (d : nat) (key : string) (depth : nat) (cur : Obj)
    (acc : list string) (n : string) :
  getterCalls d key (snd (testProp env depth cur acc n))
  = if bool_decide (n ∈ acc) then 0 else getterCalls d key (readLog depth cur n).
Proof.
  unfold testProp. destruct (bool_decide (n ∈ acc)); [reflexivity|].
  rewrite bind_log, getProp_log.
  destruct (fst (getProp depth cur n)) as [v|e]; [|reflexivity].
  rewrite getterCalls_app, oracle_log_calls. lia.
Qed.

Lemma testProp_result (depth : nat) (cur : Obj) (acc acc' : list string)
    (n : string) :
  fst (testProp env depth cur acc n) = Normal acc' ->
  acc' = acc \/ (acc' = acc ++ [n] /\ n ∉ acc).
Proof.
  unfold testProp. destruct (bool_decide_reflect (n ∈ acc)) as [Hin|Hout].
  - intros [= <-]. now left.
  - unfold bind. destruct (getProp depth cur n) as [[v|e] l1]; [|discriminate].
    simpl. destruct (isSerializableInCurrentBrowser env v); simpl;
      intros [= <-]; auto.
Qed.

Lemma forEach_testProp_result (depth : nat) (cur : Obj) (names : list string)
    (acc acc' : list string) :
  fst (forEach (testProp env depth cur) names acc) = Normal acc' ->
  (forall k, k ∈ acc' -> k ∈ acc \/ k ∈ names)
  /\ (NoDup acc -> NoDup acc').
Proof.
  revert acc. induction names as [|x rest IH]; intros acc; simpl.
  - intros [= <-]. auto.
  - unfold bind.
    destruct (testProp env depth cur acc x) as [[acc1|e] l1] eqn:Ht;
      [|discriminate].
    destruct (forEach (testProp env depth cur) rest acc1) as [r l2] eqn:Hf.
    simpl. intros ->.
    destruct (IH acc1) as [Hsub Hnd]; [now rewrite Hf|].
    assert (Hstep : fst (testProp env depth cur acc x) = Normal acc1)
      by now rewrite Ht.
    apply testProp_result in Hstep as [->|[-> Hfresh]].
    + split; [|assumption]. intros k Hk.
      destruct (Hsub k Hk); [now left | right; now right].
    + split.
      * intros k Hk. destruct (Hsub k Hk) as [Hk'|Hk']; [|right; now right].
        apply elem_of_app in Hk' as [Hk'|Hk']; [now left|].
        apply list_elem_of_singleton in Hk' as ->. right. left.
      * intros Hacc. apply Hnd. apply NoDup_app. repeat split.
        -- assumption.
        -- intros k Hk Hk'. apply list_elem_of_singleton in Hk' as ->. auto.
        -- apply NoDup_singleton.
Qed.

Lemma walkChain_calls_below (d : nat) (key : string) (cur : Obj) :
  forall depth acc, d < depth ->
  getterCalls d key (snd (walkChain env depth cur acc)) = 0.
Proof.
  induction cur as [c ps|c ps p IH] using Obj_chain_ind; intros depth acc Hlt;
    simpl; rewrite bind_log;
    match goal with
    | |- context [forEach ?f ?names ?a] =>
        assert (Hz : getterCalls d key (snd (forEach f names a)) = 0)
          by (apply forEach_calls_zero; intros acc0 n _;
              rewrite testProp_calls; destruct (bool_decide _);
              [reflexivity | apply readLog_other; now right]);
        destruct (fst (forEach f names a)) as [acc1|e]; [|assumption];
        rewrite getterCalls_app, Hz
    end.
  - reflexivity.
  - rewrite IH; [reflexivity | lia].
Qed.

Lemma walkChain_NoDup (cur : Obj) :
  forall depth acc acc',
  NoDup acc -> fst (walkChain env depth cur acc) = Normal acc' -> NoDup acc'.
Proof.
  induction cur as [c ps|c ps p IH] using Obj_chain_ind; intros depth acc acc' Hnd;
    simpl; unfold bind;
    match goal with
    | |- context [forEach ?f ?names ?a] =>
        destruct (forEach f names a) as [[acc1|e] l1] eqn:Hf; [|discriminate];
        assert (Hnd1 : NoDup acc1)
          by (eapply forEach_testProp_result; [now rewrite Hf | assumption])
    end.
  - simpl. now intros [= <-].
  - destruct (walkChain env (S depth) p acc1) as [r l2] eqn:Hw. simpl.
    intros ->. eapply IH; [exact Hnd1 | now rewrite Hw].
Qed.

Lemma walkChain_unfold (depth : nat) (c : Class) (ps : list (string * Slot))
    (parent : option Obj) (acc : list string) :
  walkChain env depth (MkObj c ps parent) acc
  = bind (forEach (testProp env depth (MkObj c ps parent)) (fst <$> ps) acc)
      (fun acc1 => match parent with
                   | Some p => walkChain env (S depth) p acc1
                   | None => ret acc1
                   end).
Proof. reflexivity. Qed.

(** During the walk the getter that [key] resolves to is run exactly once. *)
Lemma walkChain_calls_one (d : nat) (key : string) (g : GetterBody) (cur : Obj) :
  forall depth acc acc',
  wfChain cur -> key ∉ acc ->
  resolve depth cur key = Some (d, Accessor g) ->
  fst (walkChain env depth cur acc) = Normal acc' ->
  getterCalls d key (snd (walkChain env depth cur acc)) = 1.
Proof.
  assert (Hother : forall depth o a n, n <> key ->
            getterCalls d key (snd (testProp env depth o a n)) = 0).
  { intros depth o a n Hne. rewrite testProp_calls.
    destruct (bool_decide _); [reflexivity|]. apply readLog_other. now left. }
  assert (Hown : forall depth c ps parent acc acc1,
            NoDup (fst <$> ps) -> key ∉ acc ->
            lookupOwn key ps = Some (Accessor g) ->
            fst (forEach (testProp env depth (MkObj c ps parent)) (fst <$> ps) acc)
            = Normal acc1 ->
            getterCalls depth key
              (snd (forEach (testProp env depth (MkObj c ps parent)) (fst <$> ps) acc))
            = 1).
  { intros depth c ps parent acc acc1 Hnd Hfresh Hslot Hf.
    apply (forEach_calls_one _ _ _ (fun a => key ∉ a)) with (acc' := acc1);
      try assumption.
    - intros a n Hne. rewrite testProp_calls.
      destruct (bool_decide _); [reflexivity|]. apply readLog_other. now left.
    - intros a Ha. rewrite testProp_calls, bool_decide_false by assumption.
      apply readLog_accessor with (g := g). simpl. now rewrite Hslot.
    - intros a n a' Ha Hne Hstep.
      apply testProp_result in Hstep as [->|[-> _]]; [assumption|].
      rewrite elem_of_app, list_elem_of_singleton. intros [?|?]; congruence.
    - eapply lookupOwn_Some_name, Hslot. }
  induction cur as [c ps|c ps p IH] using Obj_chain_ind;
    intros depth acc acc' [Hnd Hwf] Hfresh Hres; rewrite walkChain_unfold;
    intros Hw; apply bind_fst_inv in Hw as (acc1 & Hf & Hk & ->);
    rewrite getterCalls_app; simpl in Hres;
    destruct (lookupOwn key ps) as [slot|] eqn:Hslot; try discriminate.
  - injection Hres as <- ->.
    rewrite (Hown depth c ps None acc acc1); auto.
  - injection Hres as <- ->.
    rewrite (Hown depth c ps (Some p) acc acc1); auto.
    rewrite walkChain_calls_below; [reflexivity | lia].
  - apply lookupOwn_None_name in Hslot.
    rewrite forEach_calls_zero.
    + simpl. apply (IH (S depth) acc1 acc'); try assumption.
      intros Hin.
      destruct (proj1 (forEach_testProp_result _ _ _ _ _ Hf) key Hin);
        contradiction.
    + intros a n Hn. apply Hother. intros ->. contradiction.
Qed.
End TestPhase.

Section CopyPhase.
Context (obj : Obj).

Lemma copyProp_calls (d : nat) (key : string) (lit : list (string * Slot))
    (k : string) :
  getterCalls d key (snd (copyProp obj lit k))
  = getterCalls d key (readLog 0 obj k).
Proof.
  unfold copyProp. rewrite bind_log, getProp_log.
  destruct (fst (getProp 0 obj k)) as [v|e]; [|reflexivity].
  rewrite getterCalls_app. simpl. rewrite getterCalls_nil. lia.
Qed.

Lemma forEach_copyProp_names (keys : list string) :
  forall lit entries,
  fst (forEach (copyProp obj) keys lit) = Normal entries ->
  fst <$> entries = (fst <$> lit) ++ keys.
Proof.
  induction keys as [|k rest IH]; intros lit entries; simpl.
  - intros [= <-]. now rewrite app_nil_r.
  - intros H. apply bind_fst_inv in H as (lit1 & Hstep & Hrest & _).
    rewrite (IH _ _ Hrest). unfold copyProp, bind in Hstep.
    destruct (getProp 0 obj k) as [[v|e] l]; [|discriminate].
    simpl in Hstep. injection Hstep as <-.
    rewrite fmap_app. simpl. now rewrite <- app_assoc.
Qed.

(** While the accepted names are copied the getter that [key] resolves to
    is run exactly once. *)
Lemma forEach_copyProp_calls_one (d : nat) (key : string) (g : GetterBody)
    (keys : list string) (lit entries : list (string * Slot)) :
  NoDup keys -> key ∈ keys ->
  resolve 0 obj key = Some (d, Accessor g) ->
  fst (forEach (copyProp obj) keys lit) = Normal entries ->
  getterCalls d key (snd (forEach (copyProp obj) keys lit)) = 1.
Proof.
  intros Hnd Hin Hres Hf.
  apply (forEach_calls_one _ _ _ (fun _ => True)) with (acc' := entries);
    auto.
  - intros a n Hne. rewrite copyProp_calls. apply readLog_other. now left.
  - intros a _. rewrite copyProp_calls. now apply readLog_accessor with (g := g).
Qed.
End CopyPhase.

(** C7 (as amended).  In a flattening that completes, on an object whose
    links each list a name once, the getter behind every accepted name (the
    accessor that the name resolves to on the original object) is run
    exactly twice: once by the property read whose value goes to the oracle
    while the chain is walked, and once more by the read [obj[key]] that
    copies the value into the output record. *)
Theorem accepted_getter_runs_twice (env : Env) (obj lit : Obj)
    (log : list Event) (key : string) (d : nat) (g : GetterBody) :
  wfChain obj ->
  convertObjectToSerializableLiteral env obj = (Normal lit, log) ->
  key ∈ getOwnPropertyNames lit ->
  resolve 0 obj key = Some (d, Accessor g) ->
  exists testLog copyLog,
    log = testLog ++ copyLog
    /\ testLog = snd (walkChain env 0 obj [])
    /\ copyLog = snd (forEach (copyProp obj) (getOwnPropertyNames lit) [])
    /\ getterCalls d key testLog = 1
    /\ getterCalls d key copyLog = 1
    /\ getterCalls d key log = 2.
Proof.
  intros Hwf Hrun Hkey Hres.
  pose proof (f_equal fst Hrun) as Hfst. pose proof (f_equal snd Hrun) as Hsnd.
  simpl in Hfst, Hsnd. unfold convertObjectToSerializableLiteral in Hfst, Hsnd.
  apply bind_fst_inv in Hfst as (allProps & Hwalk & Hcopy & Hlog1).
  apply bind_fst_inv in Hcopy as (entries & Hentries & Hlit & Hlog2).
  simpl in Hlit. injection Hlit as <-.
  rewrite Hlog1, Hlog2 in Hsnd. simpl in Hsnd. rewrite app_nil_r in Hsnd.
  pose proof (forEach_copyProp_names obj allProps [] entries Hentries) as Hnames.
  simpl in Hnames. unfold getOwnPropertyNames in *. simpl in *.
  rewrite Hnames in *.
  assert (Htest : getterCalls d key (snd (walkChain env 0 obj [])) = 1).
  { apply walkChain_calls_one with (g := g) (acc' := allProps); auto.
    apply not_elem_of_nil. }
  assert (Hcp : getterCalls d key (snd (forEach (copyProp obj) allProps [])) = 1).
  { apply forEach_copyProp_calls_one with (g := g) (entries := entries); auto.
    apply (walkChain_NoDup env obj 0 [] allProps); [constructor | assumption]. }
  exists (snd (walkChain env 0 obj [])), (snd (forEach (copyProp obj) allProps [])).
  repeat split; auto.
  rewrite <- Hsnd, getterCalls_app, Htest, Hcp. reflexivity.
Qed.

Lemma accepted_getter_runs_twice_witness :
  exists testLog copyLog,
    [GetterCall 0 "g"; OracleCall (num 7); GetterCall 0 "g"] = testLog ++ copyLog
    /\ testLog = snd (walkChain chromium 0 getterObj [])
    /\ copyLog = snd (forEach (copyProp getterObj) ["g"] [])
    /\ getterCalls 0 "g" testLog = 1
    /\ getterCalls 0 "g" copyLog = 1
    /\ getterCalls 0 "g" [GetterCall 0 "g"; OracleCall (num 7); GetterCall 0 "g"] = 2.
Proof.
  apply (accepted_getter_runs_twice chromium getterObj
           (MkObj ClsObject [("g", Data (num 7))] None)
           [GetterCall 0 "g"; OracleCall (num 7); GetterCall 0 "g"]
           "g" 0 (Returns (num 7))).
  - simpl. split; [apply NoDup_singleton | exact I].
  - reflexivity.
  - simpl. left.
  - reflexivity.
Defined.

(** C7, the claim as stated fails: flattening [getterObj] runs the getter
    of [g] twice, the second time when the accepted name is copied. *)
Lemma getter_runs_again_on_copy :
  convertObjectToSerializableLiteral chromium getterObj
  = (Normal (MkObj ClsObject [("g", Data (num 7))] None),
     [GetterCall 0 "g"; OracleCall (num 7); GetterCall 0 "g"])
  /\ snd (forEach (copyProp getterObj) ["g"] []) = [GetterCall 0 "g"]
  /\ getterCalls 0 "g" (snd (convertObjectToSerializableLiteral chromium getterObj))
     <> 1.
Proof. repeat split. discriminate. Qed.

(** ** Flattening a record that is already flat *)

Lemma bind_fst {A B} (m : M A) (k : A -> M B) :
  fst (bind m k)
  = match fst m with
    | Normal a => fst (k a)
    | Abrupt e => Abrupt e
    end.
Proof.
  unfold bind. destruct m as [[a|e] l1]; simpl; [|reflexivity].
  now destruct (k a).
Qed.

Lemma lookupOwn_NoDup (ps : list (string * Slot)) (k : string) (s : Slot) :
  NoDup (fst <$> ps) -> (k, s) ∈ ps -> lookupOwn k ps = Some s.
Proof.
  unfold lookupOwn. induction ps as [|[k' s'] ps IH]; intros Hnd Hin.
  - now apply elem_of_nil in Hin.
  - rewrite fmap_cons in Hnd. apply NoDup_cons in Hnd as [Hfresh Hnd].
    simpl. destruct (String.eqb_spec k' k) as [->|Hne].
    + apply elem_of_cons in Hin as [[= <-]|Hin]; [reflexivity|].
      exfalso. apply Hfresh. apply list_elem_of_fmap. now exists (k, s).
    + apply elem_of_cons in Hin as [[= <- <-]|Hin]; [congruence|]. auto.
Qed.

Section FlatRecord.
Context (env : Env) (entries : list (string * Slot)).
Hypothesis Hnd : NoDup (fst <$> entries).
Hypothesis Hacc : Forall (acceptedEntry env) entries.

Local Abbreviation flat := (MkObj ClsObject entries None).

Lemma flat_read (depth : nat) (k : string) (v : Value) :
  (k, Data v) ∈ entries -> getProp depth flat k = (Normal v, []).
Proof. intros Hin. simpl. now rewrite (lookupOwn_NoDup _ _ _ Hnd Hin). Qed.

Lemma flat_walk (suf : list (string * Slot)) :
  forall pre, entries = pre ++ suf ->
  fst (forEach (testProp env 0 flat) (fst <$> suf) (fst <$> pre))
  = Normal (fst <$> entries).
Proof.
  induction suf as [|[k s] suf IH]; intros pre Heq.
  - rewrite app_nil_r in Heq. now subst.
  - assert (Hin : (k, s) ∈ entries) by (rewrite Heq; set_solver).
    destruct (proj1 (Forall_forall _ _) Hacc _ Hin) as (v & Hs & Hok).
    simpl in Hs. subst s.
    assert (Hfresh : k ∉ (fst <$> pre)).
    { pose proof Hnd as Hnd'. rewrite Heq, fmap_app in Hnd'.
      apply NoDup_app in Hnd' as (_ & Hdisj & _). intros Hk.
      apply (Hdisj k Hk). rewrite fmap_cons. left. }
    rewrite fmap_cons. simpl forEach. rewrite bind_fst.
    unfold testProp. rewrite bool_decide_false by assumption.
    rewrite (flat_read 0 k v Hin). simpl. rewrite Hok. simpl.
    specialize (IH (pre ++ [(k, Data v)])).
    rewrite fmap_app in IH. apply IH. now rewrite <- app_assoc.
Qed.

Lemma flat_copy (suf : list (string * Slot)) :
  forall pre, entries = pre ++ suf ->
  fst (forEach (copyProp flat) (fst <$> suf) pre) = Normal entries.
Proof.
  induction suf as [|[k s] suf IH]; intros pre Heq.
  - rewrite app_nil_r in Heq. now subst.
  - assert (Hin : (k, s) ∈ entries) by (rewrite Heq; set_solver).
    destruct (proj1 (Forall_forall _ _) Hacc _ Hin) as (v & Hs & _).
    simpl in Hs. subst s.
    rewrite fmap_cons. simpl forEach. rewrite bind_fst.
    unfold copyProp. rewrite (flat_read 0 k v Hin). simpl.
    apply IH. now rewrite <- app_assoc.
Qed.

(** Flattening such a record gives the record back. *)
Lemma flatten_flat_record :
  fst (convertObjectToSerializableLiteral env flat) = Normal flat.
Proof.
  unfold convertObjectToSerializableLiteral. rewrite bind_fst.
  rewrite walkChain_unfold, bind_fst.
  pose proof (flat_walk entries [] eq_refl) as Hwalk.
  change (fst <$> []) with (@nil string) in Hwalk.
  rewrite Hwalk. cbn [fst ret]. cbv iota. rewrite bind_fst.
  rewrite (flat_copy entries [] eq_refl). reflexivity.
Qed.
End FlatRecord.

(** So a second sanitization changes nothing whenever every value stored by
    the first one is accepted by the oracle. *)
Lemma sanitize_again_when_values_pass (env : Env) (obj lit : Obj) :
  preprocessErrorsForSerialization env (VObject obj) = Normal (VObject lit) ->
  Forall (acceptedEntry env) (own lit) ->
  preprocessErrorsForSerialization env (VObject lit) = Normal (VObject lit).
Proof.
  simpl. intros Hfirst Hacc.
  destruct (fst (convertObjectToSerializableLiteral env obj)) as [lit'|e] eqn:Hrun;
    [|discriminate].
  injection Hfirst as ->.
  unfold convertObjectToSerializableLiteral in Hrun.
  apply bind_fst_inv in Hrun as (allProps & Hwalk & Hcopy & _).
  apply bind_fst_inv in Hcopy as (entries & Hentries & Hlit & _).
  simpl in Hlit. injection Hlit as <-. simpl in Hacc.
  rewrite flatten_flat_record; [reflexivity | | assumption].
  rewrite (forEach_copyProp_names obj allProps [] entries Hentries). simpl.
  apply (walkChain_NoDup env obj 0 [] allProps); [constructor | assumption].
Qed.

(** * Further properties of the sanitizer on sequences *)

(** Induction on a value through the elements of arrays, the only places
    [preprocessErrorsForSerialization] recurses into. *)
Lemma Value_elems_ind (P : Value -> Prop) :
  (forall v, isArray v = false -> P v) ->
  (forall elems, Forall P elems -> P (VArray elems)) ->
  forall v, P v.
Proof.
  intros Hbase Harr. fix IH 1. intros v.
  destruct v as [| | | | | | |elems|o]; try (apply Hbase; reflexivity).
  apply Harr. induction elems as [|x rest IHrest]; constructor.
  - apply IH.
  - exact IHrest.
Qed.

Section Sequences.
Context (env : Env).

Local Abbreviation sanitize := (preprocessErrorsForSerialization env).

Lemma lodashFilter_throws (predicate : Value -> Completion Value)
    (l : list Value) (e : Value) :
  lodashFilter predicate l = Abrupt e ->
  exists x, x ∈ l /\ predicate x = Abrupt e.
Proof.
  induction l as [|x rest IH]; simpl; [discriminate|].
  destruct (predicate x) as [r|e'] eqn:Hx.
  - destruct (lodashFilter predicate rest) as [kept|e'']; [discriminate|].
    intros [= <-]. destruct (IH eq_refl) as (y & Hy & Hthrow).
    exists y. split; [now right | assumption].
  - intros [= <-]. exists x. split; [left | assumption].
Qed.

Lemma lodashFilter_all_return (predicate : Value -> Completion Value)
    (l : list Value) :
  Forall (fun x => exists r, predicate x = Normal r) l ->
  lodashFilter predicate l
  = Normal (filter (fun x => keeps predicate x = true) l).
Proof.
  induction 1 as [|x rest [r Hx] _ IH]; simpl; [reflexivity|].
  rewrite Hx, IH.
  assert (Hk : keeps predicate x = truthy r) by (unfold keeps; now rewrite Hx).
  rewrite filter_cons, Hk.
  destruct (truthy r); [rewrite decide_True | rewrite decide_False]; congruence.
Qed.

Lemma lodashFilter_some_throws (predicate : Value -> Completion Value)
    (l : list Value) (x e : Value) :
  x ∈ l -> predicate x = Abrupt e ->
  exists e', lodashFilter predicate l = Abrupt e'.
Proof.
  intros Hin Hx. induction l as [|y rest IH]; [now apply elem_of_nil in Hin|].
  simpl. destruct (predicate y) as [r|e'] eqn:Hy; [|eauto].
  apply elem_of_cons in Hin as [->|Hin]; [congruence|].
  destruct (IH Hin) as [e' ->]. eauto.
Qed.

(** On elements that sanitize, [_.filter] decides by the truthiness of the
    element itself. *)
Lemma filter_keeps_truthy (l : list Value) :
  Forall (fun x => exists r, sanitize x = Normal r) l ->
  filter (fun x => keeps sanitize x = true) l
  = filter (fun x => truthy x = true) l.
Proof.
  induction 1 as [|x rest [r Hx] _ IH]; [reflexivity|].
  rewrite !filter_cons, IH.
  assert (Hk : keeps sanitize x = truthy x).
  { unfold keeps. rewrite Hx. now apply (sanitize_truthy env). }
  rewrite Hk. destruct (truthy x);
    [rewrite !decide_True | rewrite !decide_False]; congruence.
Qed.

Lemma sanitize_throws_sentinel (v e : Value) :
  sanitize v = Abrupt e -> e = UNSERIALIZABLE.
Proof.
  revert e. induction v as [v Hv|elems IH] using Value_elems_ind; intros e.
  - destruct v as [| | | | | | |elems|o]; simpl; try discriminate;
      try (destruct (isSerializableInCurrentBrowser env _); congruence).
    destruct (fst (convertObjectToSerializableLiteral env o)); congruence.
  - simpl. destruct (lodashFilter sanitize elems) as [kept|e'] eqn:Hf;
      [discriminate|].
    intros [= <-]. apply lodashFilter_throws in Hf as (x & Hx & Hthrow).
    exact (proj1 (Forall_forall _ _) IH x Hx e' Hthrow).
Qed.
End Sequences.

(** X1.  Whatever value is sanitized, the only thing the sanitizer ever
    throws is the sentinel [UNSERIALIZABLE]: a getter's own exception inside
    an object, at any nesting depth of sequences, is replaced by it. *)
Theorem sanitizer_throws_only_sentinel (env : Env) (v e : Value) :
  preprocessErrorsForSerialization env v = Abrupt e -> e = UNSERIALIZABLE.
Proof. apply sanitize_throws_sentinel. Qed.

Lemma sanitizer_throws_only_sentinel_witness :
  fst (getProp 0 (MkObj ClsObject [("g", Accessor (Throws (VString "boom")))] None)
         "g")
  = Abrupt (VString "boom")
  /\ VString "__cypress_unserializable_value" = UNSERIALIZABLE.
Proof.
  split; [reflexivity|].
  apply (sanitizer_throws_only_sentinel chromium
           (VArray [num 1;
                    VArray [VObject (MkObj ClsObject
                                       [("g", Accessor (Throws (VString "boom")))]
                                       None)]])).
  reflexivity.
Defined.

(** X2.  When sanitizing a sequence returns, the result is the sequence of
    the truthy elements of the input, each one unchanged and in the input's
    order. *)
Theorem sequence_result_is_truthy_elements (env : Env) (elems : list Value)
    (out : Value) :
  preprocessErrorsForSerialization env (VArray elems) = Normal out ->
  out = VArray (filter (fun x => truthy x = true) elems).
Proof.
  simpl. destruct (lodashFilter _ elems) as [kept|e] eqn:Hf; [|discriminate].
  intros [= <-]. apply lodashFilter_returns in Hf as [-> Hall].
  now rewrite (filter_keeps_truthy env elems Hall).
Qed.

Lemma sequence_result_is_truthy_elements_witness :
  VArray [num 1; VObject objXY; VArray [num 0]]
  = VArray (filter (fun x => truthy x = true)
              [num 1; num 0; VObject objXY; VNull; VArray [num 0]]).
Proof.
  apply (sequence_result_is_truthy_elements chromium). reflexivity.
Defined.

(** X3.  Sanitizing a sequence throws exactly when sanitizing one of its
    elements throws. *)
Theorem sequence_raises_iff_element_raises (env : Env) (elems : list Value) :
  preprocessErrorsForSerialization env (VArray elems) = Abrupt UNSERIALIZABLE
  <-> exists x, x ∈ elems
              /\ preprocessErrorsForSerialization env x = Abrupt UNSERIALIZABLE.
Proof.
  simpl. split.
  - destruct (lodashFilter _ elems) as [kept|e] eqn:Hf; [discriminate|].
    intros [= ->]. now apply lodashFilter_throws in Hf.
  - intros (x & Hin & Hx).
    destruct (lodashFilter_some_throws _ _ _ _ Hin Hx) as [e' Hf].
    rewrite Hf. f_equal.
    apply lodashFilter_throws in Hf as (y & _ & Hy).
    now apply sanitize_throws_sentinel in Hy.
Qed.

(** X4.  On sequences the sanitizer is idempotent: sanitizing the result of
    a sequence sanitization returns that result unchanged. *)
Theorem sequence_sanitize_idempotent (env : Env) (elems : list Value)
    (out : Value) :
  preprocessErrorsForSerialization env (VArray elems) = Normal out ->
  preprocessErrorsForSerialization env out = Normal out.
Proof.
  simpl. destruct (lodashFilter _ elems) as [kept|e] eqn:Hf; [|discriminate].
  intros [= <-]. apply lodashFilter_returns in Hf as [Hkept Hall].
  rewrite (filter_keeps_truthy env elems Hall) in Hkept.
  assert (Hsub : Forall (fun x => exists r,
                    preprocessErrorsForSerialization env x = Normal r) kept).
  { apply Forall_forall. intros x Hx. rewrite Hkept in Hx.
    apply list_elem_of_filter in Hx as [_ Hx].
    exact (proj1 (Forall_forall _ _) Hall x Hx). }
  simpl. rewrite (lodashFilter_all_return _ _ Hsub).
  rewrite (filter_keeps_truthy env kept Hsub). do 2 f_equal.
  rewrite Hkept. apply list_filter_filter_l. auto.
Qed.

Lemma sequence_sanitize_idempotent_witness :
  preprocessErrorsForSerialization chromium (VArray [num 1; VObject objXY])
  = Normal (VArray [num 1; VObject objXY]).
Proof.
  apply (sequence_sanitize_idempotent chromium
           [num 1; num 0; VObject objXY; VString ""]).
  reflexivity.
Defined.

(** * Further properties of the flattener *)

Lemma lookupOwn_Some_elem (prop : string) (ps : list (string * Slot)) (s : Slot) :
  lookupOwn prop ps = Some s -> (prop, s) ∈ ps.
Proof.
  unfold lookupOwn. destruct (List.find _ ps) as [[k s']|] eqn:Hf; [|discriminate].
  intros [= <-]. apply List.find_some in Hf as [Hin Heq]. simpl in Heq.
  apply String.eqb_eq in Heq as ->. now apply list_elem_of_In.
Qed.

Lemma lookupOwn_name_Some (prop : string) (ps : list (string * Slot)) :
  prop ∈ (fst <$> ps) -> exists s, lookupOwn prop ps = Some s.
Proof.
  intros Hin. destruct (lookupOwn prop ps) as [s|] eqn:Hl; [eauto|].
  now apply lookupOwn_None_name in Hl.
Qed.

Lemma runGetter_fst (d : nat) (prop : string) (g : GetterBody) :
  fst (runGetter d prop g)
  = match g with Returns v => Normal v | Throws e => Abrupt e end.
Proof. now destruct g. Qed.

(** The depth only labels the log. *)
Lemma getProp_fst_depth (o : Obj) (prop : string) :
  forall d1 d2, fst (getProp d1 o prop) = fst (getProp d2 o prop).
Proof.
  induction o as [c ps|c ps p IH] using Obj_chain_ind; intros d1 d2; simpl;
    destruct (lookupOwn prop ps) as [[v|g]|]; simpl;
    rewrite ?runGetter_fst; auto.
Qed.

Lemma chainLinks_depth (o : Obj) :
  forall depth d link, (d, link) ∈ chainLinks depth o -> depth <= d.
Proof.
  induction o as [c ps|c ps p IH] using Obj_chain_ind; intros depth d link;
    simpl; rewrite elem_of_cons.
  - intros [[= -> _]|Hin]; [lia | now apply elem_of_nil in Hin].
  - intros [[= -> _]|Hin]; [lia|]. apply IH in Hin. lia.
Qed.

Lemma chainLinks_names (o : Obj) (key : string) :
  forall depth d link,
  (d, link) ∈ chainLinks depth o -> key ∈ getOwnPropertyNames link ->
  key ∈ chainNames o.
Proof.
  induction o as [c ps|c ps p IH] using Obj_chain_ind; intros depth d link;
    simpl; rewrite elem_of_cons, elem_of_app.
  - intros [[= _ ->]|Hin] Hk; [now left | now apply elem_of_nil in Hin].
  - intros [[= _ ->]|Hin] Hk; [now left | right; eauto].
Qed.

(** If no name occurs twice along the chain, reading a name from the
    original object gives what its owning link holds. *)
Lemma getProp_of_owner (o : Obj) (key : string) (d : nat) (link : Obj) :
  forall depth,
  NoDup (chainNames o) ->
  (d, link) ∈ chainLinks depth o -> key ∈ getOwnPropertyNames link ->
  fst (getProp depth o key) = fst (getProp d link key).
Proof.
  induction o as [c ps|c ps p IH] using Obj_chain_ind; intros depth Hnd;
    simpl chainLinks; rewrite elem_of_cons.
  - intros [[= -> ->]|Hin]; [reflexivity | now apply elem_of_nil in Hin].
  - intros [[= -> ->]|Hin] Hk; [reflexivity|].
    simpl in Hnd. apply NoDup_app in Hnd as (_ & Hdisj & Hnd).
    assert (Hnone : lookupOwn key ps = None).
    { destruct (lookupOwn key ps) as [s|] eqn:Hl; [|reflexivity].
      exfalso. apply (Hdisj key).
      - eapply lookupOwn_Some_name, Hl.
      - eapply chainLinks_names; eassumption. }
    simpl. rewrite Hnone. now apply IH.
Qed.

Lemma NoDup_chainNames_wfChain (o : Obj) : NoDup (chainNames o) -> wfChain o.
Proof.
  induction o as [c ps|c ps p IH] using Obj_chain_ind; simpl;
    intros Hnd; apply NoDup_app in Hnd as (Hps & _ & Hrest); auto.
Qed.

Section Acceptance.
Context (env : Env).

Lemma testProp_members (depth : nat) (cur : Obj) (acc acc1 : list string)
    (n : string) :
  n ∈ getOwnPropertyNames cur ->
  fst (testProp env depth cur acc n) = Normal acc1 ->
  forall k, k ∈ acc1 <-> k ∈ acc \/ (k = n /\ ownsAccepted env n (depth, cur)).
Proof.
  intros Hown. unfold testProp, ownsAccepted. simpl.
  destruct (bool_decide_reflect (n ∈ acc)) as [Hin|Hout].
  - intros [= <-] k. split; [auto|]. intros [Hk|[-> _]]; assumption.
  - rewrite bind_fst.
    destruct (fst (getProp depth cur n)) as [v|e] eqn:Hread; [|discriminate].
    simpl. destruct (isSerializableInCurrentBrowser env v) eqn:Hok; simpl;
      intros [= <-] k.
    + rewrite elem_of_app, list_elem_of_singleton. split.
      * intros [Hk | ->]; [now left | right; eauto 6].
      * intros [Hk|[-> _]]; auto.
    + split; [auto|]. intros [Hk|[-> (_ & v' & Hv' & Hacc)]]; [assumption|].
      congruence.
Qed.

Lemma forEach_testProp_members (depth : nat) (cur : Obj) (names : list string) :
  forall acc acc',
  Forall (fun n => n ∈ getOwnPropertyNames cur) names ->
  fst (forEach (testProp env depth cur) names acc) = Normal acc' ->
  forall k, k ∈ acc' <-> k ∈ acc \/ (k ∈ names /\ ownsAccepted env k (depth, cur)).
Proof.
  induction names as [|n rest IH]; intros acc acc' Hnames; simpl.
  - intros [= <-] k. split; [auto|]. intros [?|[Hk _]]; [assumption|].
    now apply elem_of_nil in Hk.
  - apply Forall_cons in Hnames as [Hn Hrest]. intros Hrun k.
    apply bind_fst_inv in Hrun as (acc1 & Hstep & Hloop & _).
    rewrite (IH _ _ Hrest Hloop k), (testProp_members _ _ _ _ _ Hn Hstep k).
    rewrite elem_of_cons. split.
    + intros [[Hk|[-> Hacc]]|[Hk Hacc]]; auto.
    + intros [Hk|[[-> | Hk] Hacc]]; auto.
Qed.

(** A name is accepted by the walk exactly when some link owns it with a
    value that the oracle accepts. *)
Lemma walkChain_members (cur : Obj) :
  forall depth acc acc',
  fst (walkChain env depth cur acc) = Normal acc' ->
  forall k, k ∈ acc' <-> k ∈ acc \/ Exists (ownsAccepted env k) (chainLinks depth cur).
Proof.
  induction cur as [c ps|c ps p IH] using Obj_chain_ind; intros depth acc acc';
    rewrite walkChain_unfold; intros Hrun k;
    apply bind_fst_inv in Hrun as (acc1 & Hloop & Hrest & _);
    pose proof (forEach_testProp_members depth _ _ acc acc1
                  ltac:(apply Forall_forall; intros ? Hx; exact Hx) Hloop k)
      as Hhere;
    simpl chainLinks; rewrite Exists_cons.
  - simpl in Hrest. injection Hrest as <-. rewrite Hhere, Exists_nil.
    unfold getOwnPropertyNames, ownsAccepted. simpl. tauto.
  - rewrite (IH _ _ _ Hrest k), Hhere.
    unfold getOwnPropertyNames, ownsAccepted. simpl. tauto.
Qed.
End Acceptance.

Section Flattened.
Context (env : Env) (obj : Obj).

Lemma forEach_copyProp_members (keys : list string) :
  forall lit entries,
  fst (forEach (copyProp obj) keys lit) = Normal entries ->
  forall k s, (k, s) ∈ entries
              <-> (k, s) ∈ lit
                  \/ (k ∈ keys
                      /\ exists v, s = Data v /\ fst (getProp 0 obj k) = Normal v).
Proof.
  induction keys as [|key rest IH]; intros lit entries; simpl.
  - intros [= <-] k s. split; [auto|]. intros [?|[Hk _]]; [assumption|].
    now apply elem_of_nil in Hk.
  - intros Hrun k s. apply bind_fst_inv in Hrun as (lit1 & Hstep & Hloop & _).
    rewrite (IH _ _ Hloop k s). unfold copyProp in Hstep.
    rewrite bind_fst in Hstep.
    destruct (fst (getProp 0 obj key)) as [v|e] eqn:Hread; [|discriminate].
    simpl in Hstep. injection Hstep as <-.
    rewrite elem_of_app, list_elem_of_singleton, elem_of_cons. split.
    + intros [[Hin|[= -> ->]]|[Hk Hv]]; eauto 8.
    + intros [Hin|[[-> | Hk] (v' & -> & Hv')]]; eauto 8.
      left. right. congruence.
Qed.

(** What a completed flattening consists of. *)
Lemma convert_inv (lit : Obj) :
  fst (convertObjectToSerializableLiteral env obj) = Normal lit ->
  exists allProps entries,
    fst (walkChain env 0 obj []) = Normal allProps
    /\ fst (forEach (copyProp obj) allProps []) = Normal entries
    /\ lit = MkObj ClsObject entries None
    /\ fst <$> entries = allProps
    /\ NoDup allProps.
Proof.
  unfold convertObjectToSerializableLiteral. intros Hrun.
  apply bind_fst_inv in Hrun as (allProps & Hwalk & Hcopy & _).
  apply bind_fst_inv in Hcopy as (entries & Hentries & Hlit & _).
  simpl in Hlit. injection Hlit as <-. exists allProps, entries.
  repeat split; try assumption.
  - apply (forEach_copyProp_names obj allProps [] entries Hentries).
  - apply (walkChain_NoDup env obj 0 [] allProps); [constructor | assumption].
Qed.

Lemma flattened_names (lit : Obj) (key : string) :
  fst (convertObjectToSerializableLiteral env obj) = Normal lit ->
  key ∈ getOwnPropertyNames lit
  <-> Exists (ownsAccepted env key) (chainLinks 0 obj).
Proof.
  intros Hrun.
  destruct (convert_inv lit Hrun) as (allProps & entries & Hwalk & _ & -> & Hn & _).
  unfold getOwnPropertyNames. simpl. rewrite Hn.
  rewrite (walkChain_members env obj 0 [] allProps Hwalk key).
  split; [intros [Hk|?]; [now apply elem_of_nil in Hk | assumption] | auto].
Qed.

Lemma flattened_slots (lit : Obj) (key : string) (slot : Slot) :
  fst (convertObjectToSerializableLiteral env obj) = Normal lit ->
  (key, slot) ∈ own lit ->
  exists v, slot = Data v /\ fst (getProp 0 obj key) = Normal v.
Proof.
  intros Hrun.
  destruct (convert_inv lit Hrun) as (allProps & entries & _ & Hcopy & -> & _ & _).
  simpl. rewrite (forEach_copyProp_members allProps [] entries Hcopy key slot).
  intros [Hin|[_ Hv]]; [now apply elem_of_nil in Hin | assumption].
Qed.

(** Without a name that occurs twice along the chain, every stored value
    was the one tested. *)
Lemma flattened_values_accepted (lit : Obj) :
  NoDup (chainNames obj) ->
  fst (convertObjectToSerializableLiteral env obj) = Normal lit ->
  Forall (acceptedEntry env) (own lit).
Proof.
  intros Hnd Hrun. apply Forall_forall. intros [key slot] Hin.
  destruct (flattened_slots lit key slot Hrun Hin) as (v & -> & Hv).
  exists v. split; [reflexivity|].
  assert (Hname : key ∈ getOwnPropertyNames lit).
  { apply list_elem_of_fmap. now exists (key, Data v). }
  apply (flattened_names lit key Hrun) in Hname.
  apply Exists_exists in Hname as ([d link] & Hlink & Hown & v' & Hv' & Hacc).
  simpl in Hown, Hv'.
  rewrite (getProp_of_owner obj key d link 0 Hnd Hlink Hown) in Hv.
  congruence.
Qed.
End Flattened.







(** ** When flattening completes *)

Lemma forEach_returns {A B} (f : B -> A -> M B) (l : list A) :
  (forall acc x, exists acc', fst (f acc x) = Normal acc') ->
  forall acc, exists acc', fst (forEach f l acc) = Normal acc'.
Proof.
  intros Hf. induction l as [|x rest IH]; intros acc; simpl; [eauto|].
  rewrite bind_fst. destruct (Hf acc x) as [acc1 ->]. apply IH.
Qed.

Lemma getProp_returns (o : Obj) (prop : string) :
  forall depth, gettersReturn o -> exists v, fst (getProp depth o prop) = Normal v.
Proof.
  induction o as [c ps|c ps p IH] using Obj_chain_ind; intros depth [Hps Hp];
    simpl; destruct (lookupOwn prop ps) as [[v|[v|e]]|] eqn:Hl; simpl; eauto;
    apply lookupOwn_Some_elem in Hl;
    exfalso; exact (proj1 (Forall_forall _ _) Hps _ Hl e eq_refl).
Qed.

Lemma walkChain_returns (env : Env) (cur : Obj) :
  forall depth acc,
  gettersReturn cur -> exists acc', fst (walkChain env depth cur acc) = Normal acc'.
Proof.
  induction cur as [c ps|c ps p IH] using Obj_chain_ind; intros depth acc Hg;
    rewrite walkChain_unfold, bind_fst;
    match goal with
    | |- context [forEach ?f ?names ?a] =>
        destruct (forEach_returns f names) with (acc := a) as [acc1 ->]
    end;
    try (intros a x; unfold testProp; destruct (bool_decide _); [simpl; eauto|];
         rewrite bind_fst;
         destruct (getProp_returns _ x depth Hg) as [v ->]; simpl; eauto).
  - simpl. eauto.
  - apply IH. apply Hg.
Qed.

Lemma convert_returns (env : Env) (obj : Obj) :
  gettersReturn obj ->
  exists lit, fst (convertObjectToSerializableLiteral env obj) = Normal lit.
Proof.
  intros Hg. unfold convertObjectToSerializableLiteral. rewrite bind_fst.
  destruct (walkChain_returns env obj 0 [] Hg) as [allProps ->].
  rewrite bind_fst.
  destruct (forEach_returns (copyProp obj) allProps) with (acc := @nil (string * Slot))
    as [entries ->]; [|simpl; eauto].
  intros a k. unfold copyProp. rewrite bind_fst.
  destruct (getProp_returns obj k 0 Hg) as [v ->]. simpl. eauto.
Qed.

(** X8.  An object none of whose getters throws is never rejected: the
    sanitizer returns a record for it, whatever the oracle says about its
    properties. *)
Theorem object_without_throwing_getter_is_sanitized (env : Env) (obj : Obj) :
  gettersReturn obj ->
  exists lit, preprocessErrorsForSerialization env (VObject obj)
              = Normal (VObject lit).
Proof.
  intros Hg. simpl. destruct (convert_returns env obj Hg) as [lit ->]. eauto.
Qed.

Lemma object_without_throwing_getter_is_sanitized_witness :
  exists lit, preprocessErrorsForSerialization chromium (VObject shadowP)
              = Normal (VObject lit).
Proof.
  apply (object_without_throwing_getter_is_sanitized chromium shadowP).
  simpl. repeat split; repeat constructor; simpl; discriminate.
Defined.

(** X9.  When no link owns a name with a value that the oracle accepts, a
    completed sanitization of the object returns the empty record; rejection
    of every property is not a failure. *)
Theorem nothing_accepted_gives_empty_record (env : Env) (obj : Obj) (out : Value) :
  (forall key, ~ Exists (ownsAccepted env key) (chainLinks 0 obj)) ->
  preprocessErrorsForSerialization env (VObject obj) = Normal out ->
  out = VObject emptyRecord.
Proof.
  intros Hnone. simpl.
  destruct (fst (convertObjectToSerializableLiteral env obj)) as [lit|e] eqn:Hrun;
    [|discriminate].
  intros [= <-]. f_equal.
  destruct (convert_inv env obj lit Hrun) as (allProps & entries & _ & _ & -> & Hn & _).
  destruct entries as [|[key slot] rest]; [reflexivity|].
  exfalso. apply (Hnone key).
  apply (flattened_names env obj _ key Hrun).
  unfold getOwnPropertyNames. simpl. left.
Qed.

Lemma nothing_accepted_gives_empty_record_witness :
  preprocessErrorsForSerialization chromium (VObject recordP)
  = Normal (VObject emptyRecord)
  /\ VObject emptyRecord = VObject emptyRecord.
Proof.
  split; [reflexivity|].
  apply (nothing_accepted_gives_empty_record chromium recordP).
  - intros key Hex. simpl in Hex. apply Exists_cons in Hex as [Hhere|Hrest].
    + destruct Hhere as (Hown & v & Hv & Hacc). simpl in Hown, Hv.
      apply list_elem_of_singleton in Hown as ->. simpl in Hv.
      injection Hv as <-. discriminate.
    + now apply Exists_nil in Hrest.
  - reflexivity.
Defined.

(** ** A bound on getter calls *)

Lemma readLog_le_one (depth : nat) (o : Obj) (prop : string) (d : nat)
    (key : string) :
  getterCalls d key (readLog depth o prop) <= 1.
Proof.
  unfold readLog, getterCalls.
  destruct (resolve depth o prop) as [[d' [v|g]]|]; simpl; try lia.
  destruct (_ && _); simpl; lia.
Qed.

(** A link's own name is read from that very link. *)
Lemma readLog_own_depth (depth : nat) (o : Obj) (prop : string) (d : nat)
    (key : string) :
  prop ∈ getOwnPropertyNames o -> d <> depth ->
  getterCalls d key (readLog depth o prop) = 0.
Proof.
  destruct o as [c ps parent]. unfold getOwnPropertyNames, readLog. simpl.
  intros Hown Hd. destruct (lookupOwn_name_Some _ _ Hown) as [[v|g] ->];
    [reflexivity|].
  unfold getterCalls. simpl.
  destruct (Nat.eqb_spec d depth); [contradiction | reflexivity].
Qed.

Section ForEachBound.
Context {B : Type} (f : B -> string -> M B) (d : nat) (key : string).
Hypothesis Hother :
  forall acc n, n <> key -> getterCalls d key (snd (f acc n)) = 0.
Hypothesis Hkey : forall acc, getterCalls d key (snd (f acc key)) <= 1.

Lemma forEach_calls_le_one (names : list string) :
  forall acc, NoDup names -> getterCalls d key (snd (forEach f names acc)) <= 1.
Proof.
  induction names as [|x rest IH]; intros acc Hnd; simpl;
    [rewrite getterCalls_nil; lia|].
  apply NoDup_cons in Hnd as [Hfresh Hnd]. rewrite bind_log.
  destruct (decide (x = key)) as [->|Hne].
  - pose proof (Hkey acc) as H1.
    destruct (fst (f acc key)) as [acc1|e]; [|assumption].
    rewrite getterCalls_app, (forEach_calls_zero f d key rest acc1); [lia|].
    intros acc0 n Hn. apply Hother. congruence.
  - pose proof (Hother acc x Hne) as H0.
    destruct (fst (f acc x)) as [acc1|e]; [|lia].
    rewrite getterCalls_app, H0. simpl. now apply IH.
Qed.
End ForEachBound.

Lemma walkChain_calls_le_one (env : Env) (d : nat) (key : string) (cur : Obj) :
  forall depth acc,
  wfChain cur -> getterCalls d key (snd (walkChain env depth cur acc)) <= 1.
Proof.
  assert (Hlink : forall depth c ps parent acc, NoDup (fst <$> ps) ->
            getterCalls d key
              (snd (forEach (testProp env depth (MkObj c ps parent))
                      (fst <$> ps) acc)) <= 1).
  { intros depth c ps parent acc Hnd. apply forEach_calls_le_one; [| |assumption].
    - intros a n Hne. rewrite testProp_calls.
      destruct (bool_decide _); [reflexivity|]. apply readLog_other. now left.
    - intros a. rewrite testProp_calls.
      destruct (bool_decide _); [lia | apply readLog_le_one]. }
  assert (Hzero : forall depth c ps parent acc, d <> depth ->
            getterCalls d key
              (snd (forEach (testProp env depth (MkObj c ps parent))
                      (fst <$> ps) acc)) = 0).
  { intros depth c ps parent acc Hd. apply forEach_calls_zero. intros a n Hn.
    rewrite testProp_calls. destruct (bool_decide _); [reflexivity|].
    now apply readLog_own_depth. }
  induction cur as [c ps|c ps p IH] using Obj_chain_ind; intros depth acc [Hnd Hwf];
    rewrite walkChain_unfold, bind_log.
  - pose proof (Hlink depth c ps None acc Hnd) as Hl.
    destruct (fst (forEach _ (fst <$> ps) acc)) as [acc1|e]; [|assumption].
    rewrite getterCalls_app. simpl (snd (ret _)). rewrite getterCalls_nil. lia.
  - pose proof (Hlink depth c ps (Some p) acc Hnd) as Hl.
    destruct (fst (forEach _ (fst <$> ps) acc)) as [acc1|e]; [|assumption].
    rewrite getterCalls_app.
    destruct (decide (d = depth)) as [->|Hd].
    + rewrite walkChain_calls_below by lia. lia.
    + rewrite Hzero by assumption. simpl. now apply IH.
Qed.



(** * Further properties of the shallow sanitizer *)

(** X11.  [omitUnserializablePropertiesFromObj] is idempotent. *)
Theorem omit_idempotent (env : Env) (m : gmap string Value) :
  omitUnserializablePropertiesFromObj env
    (omitUnserializablePropertiesFromObj env m)
  = omitUnserializablePropertiesFromObj env m.
Proof.
  unfold omitUnserializablePropertiesFromObj.
  apply map_filter_id. intros k v Hkv.
  apply map_lookup_filter_Some in Hkv as [_ Hacc]. exact Hacc.
Qed.

(** X12.  Sanitizing a mapping to which a key was written is sanitizing the
    mapping and then writing the key when the oracle accepts the new value,
    and removing the key when it does not: a rejected new value also
    discards an accepted old one. *)
Theorem omit_insert (env : Env) (m : gmap string Value) (key : string)
    (v : Value) :
  omitUnserializablePropertiesFromObj env (<[key := v]> m)
  = if isSerializableInCurrentBrowser env v
    then <[key := v]> (omitUnserializablePropertiesFromObj env m)
    else delete key (omitUnserializablePropertiesFromObj env m).
Proof.
  unfold omitUnserializablePropertiesFromObj.
  rewrite map_filter_insert. simpl.
  destruct (isSerializableInCurrentBrowser env v).
  - now rewrite decide_True.
  - rewrite decide_False by discriminate. apply map_filter_delete.
Qed.

(** ** The two sanitizers on a flat record *)

Lemma recordMap_lookup (ps : list (string * Slot)) (k : string) (v : Value) :
  NoDup (fst <$> ps) ->
  recordMap ps !! k = Some v <-> (k, Data v) ∈ ps.
Proof.
  induction ps as [|[k' [v'|g]] rest IH]; simpl; intros Hnd.
  - rewrite lookup_empty, elem_of_nil. split; [discriminate | tauto].
  - apply NoDup_cons in Hnd as [Hfresh Hnd]. rewrite elem_of_cons.
    destruct (decide (k' = k)) as [->|Hne].
    + rewrite lookup_insert_eq. split.
      * intros [= ->]. now left.
      * intros [[= ->]|Hin]; [reflexivity|]. exfalso. apply Hfresh.
        apply list_elem_of_fmap. now exists (k, Data v).
    + rewrite lookup_insert_ne by assumption. rewrite (IH Hnd). split; [auto|].
      intros [[= -> _]|Hin]; [contradiction | assumption].
  - apply NoDup_cons in Hnd as [_ Hnd]. rewrite (IH Hnd), elem_of_cons.
    split; [auto|]. intros [[=]|Hin]; assumption.
Qed.



(** * The Firefox quirk seen through the sanitizers *)

Lemma quirk_rejects_errors (env : Env) (v : Value) :
  isBrowserFirefox env = true -> windowStructuredClone env = None ->
  isSerializableInCurrentBrowser env v = true -> isError v = false.
Proof.
  unfold isSerializableInCurrentBrowser, refIsNotNative. intros -> ->.
  destruct (structuredCloneRef _ v); [|discriminate].
  now destruct (isError v).
Qed.


